(** * sde-bot: the scheduled Bluesky bot ([bluesky_bot_scheduled.py])

    A shallow embedding of [BlueskyBot] and [main], and the properties of
    post selection and state tracking.

    The bot runs once per invocation.  Everything it remembers lives in
    three files; everything it does to the outside is logging in, sending
    one post and rewriting two of those files.  The embedding passes the
    file system explicitly, together with a chronological trace of the
    external effects, and takes what the run cannot decide itself (clock
    readings, network outcome, the random draw) from an environment. *)

From Stdlib Require Import String Ascii NArith Arith Bool List Lia.
Import ListNotations.

Set Implicit Arguments.

(** ** Python values used by the script *)

Module Py.

(** A Python [str] is a sequence of code points. *)
Definition str := list N.

(** ASCII literals. *)
Definition u (s : string) : str :=
  List.map N_of_ascii (list_ascii_of_string s).

(** [a == b] on strings. *)
Fixpoint str_eqb (a b : str) : bool :=
  match a, b with
  | [], [] => true
  | x :: a', y :: b' => N.eqb x y && str_eqb a' b'
  | _, _ => false
  end.

(** [x in l] for a list of strings. *)
Definition contains (l : list str) (x : str) : bool :=
  existsb (str_eqb x) l.

(** [not l]: an empty sequence is falsy. *)
Definition is_empty {A} (l : list A) : bool :=
  match l with [] => true | _ :: _ => false end.

(** [l[n:]] for [n >= 0]. *)
Definition slice_from {A} (n : nat) (l : list A) : list A := skipn n l.

(** [l[-n:]] for [n > 0]: the start index [len(l) - n] is clipped at 0. *)
Definition slice_last {A} (n : nat) (l : list A) : list A :=
  skipn (length l - n) l.

(** The characters [str.strip()] removes (CPython's Unicode whitespace). *)
Definition isspace (c : N) : bool :=
  ((9 <=? c) && (c <=? 13) || (28 <=? c) && (c <=? 32)
   || (c =? 133) || (c =? 160) || (c =? 5760)
   || (8192 <=? c) && (c <=? 8202)
   || (c =? 8232) || (c =? 8233) || (c =? 8239) || (c =? 8287)
   || (c =? 12288))%N.

Fixpoint lstrip (s : str) : str :=
  match s with
  | [] => []
  | c :: s' => if isspace c then lstrip s' else s
  end.

Definition rstrip (s : str) : str := rev (lstrip (rev s)).

Definition strip (s : str) : str := rstrip (lstrip s).

(** Text-mode reading with [newline=None]: ["\r\n"] and ["\r"] arrive as
    ["\n"]. *)
Fixpoint universal_newlines (s : str) : str :=
  match s with
  | [] => []
  | c :: rest =>
      if (c =? 13)%N then
        10%N :: match rest with
                | [] => []
                | d :: rest' =>
                    if (d =? 10)%N then universal_newlines rest'
                    else universal_newlines rest
                end
      else c :: universal_newlines rest
  end.

(** Iterating a text file: each line keeps its ["\n"]; a last line without
    one is yielded as it is. *)
Fixpoint lines_from (cur : str) (s : str) : list str :=
  match s with
  | [] => if is_empty cur then [] else [cur]
  | c :: rest =>
      if (c =? 10)%N then (cur ++ [c]) :: lines_from [] rest
      else lines_from (cur ++ [c]) rest
  end.

Definition file_lines (content : str) : list str :=
  lines_from [] (universal_newlines content).

(** [random.choice(seq)] on a non-empty sequence: the element at an index
    below [len(seq)], the index taken from the draw [r]. *)
Definition choice (r : nat) (seq : list str) : str :=
  nth (r mod length seq) seq [].

End Py.

Import Py.

(** ** [datetime] *)

Record datetime := {
  year : N; month : N; day : N;
  hour : N; minute : N; second : N; microsecond : N
}.

Definition digit (n : N) : N := (48 + n mod 10)%N.

Definition pad2 (n : N) : str := [digit (n / 10); digit n].

Definition pad4 (n : N) : str :=
  [digit (n / 1000); digit (n / 100); digit (n / 10); digit n].

Definition pad6 (n : N) : str :=
  [digit (n / 100000); digit (n / 10000); digit (n / 1000);
   digit (n / 100); digit (n / 10); digit n].

(** [today.strftime('%m-%d')] *)
Definition strftime_md (t : datetime) : str :=
  pad2 (month t) ++ u "-" ++ pad2 (day t).

(** [datetime.isoformat()]: the fraction is printed only when it is not 0. *)
Definition isoformat (t : datetime) : str :=
  pad4 (year t) ++ u "-" ++ pad2 (month t) ++ u "-" ++ pad2 (day t)
  ++ u "T" ++ pad2 (hour t) ++ u ":" ++ pad2 (minute t) ++ u ":"
  ++ pad2 (second t)
  ++ (if (microsecond t =? 0)%N then [] else u "." ++ pad6 (microsecond t)).

(** The month and the day of a [datetime] are those of a calendar date. *)
Definition calendar (t : datetime) : Prop :=
  (1 <= month t <= 12)%N /\ (1 <= day t <= 31)%N.

(** ** Data model *)

(** One object of [scheduled_posts.json]: the four keys the script reads or
    writes, and the other keys of the object with their values as JSON text,
    which it carries along.  A key that is absent is [None]; the script
    reads every key through [dict.get] with a default. *)
Record post := {
  date : option str;
  text : option str;
  posted : option bool;
  posted_at : option str;
  other_keys : list (str * str)
}.

(** [post.get('date', '')], [post.get('text', '')], [post.get('posted', False)] *)
Definition get_date (p : post) : str :=
  match date p with Some d => d | None => [] end.

Definition get_text (p : post) : str :=
  match text p with Some s => s | None => [] end.

Definition get_posted (p : post) : bool :=
  match posted p with Some b => b | None => false end.

(** Truth value of the dict itself: only the empty dict is falsy. *)
Definition truthy (p : post) : bool :=
  match date p, text p, posted p, posted_at p, other_keys p with
  | None, None, None, None, [] => false
  | _, _, _, _, _ => true
  end.

(** A file of the working directory: not there, there but not loadable
    (opening, decoding or parsing raises), or holding a value. *)
Inductive file (A : Type) : Type :=
| Absent
| Corrupt (raw : str)
| Holds (a : A).

Arguments Absent {A}.
Arguments Corrupt {A} raw.
Arguments Holds {A} a.

(** What the run does to the outside, in the order it happens. *)
Inductive event :=
| Login
| SendPost (body : str)
| WriteScheduled
| WriteState.

(** The three files and the trace.  [bot_state.json] holds an object whose
    key [recent_posts] may be missing. *)
Record world := {
  scheduled_posts_file : file (list post);
  regular_posts_file : file str;
  state_file : file (option (list str));
  trace : list event
}.

(** What the run is given: one clock reading per [datetime.now()] call (in
    the reset, in the search, and in the marking loop at the entry of each
    index), whether [login] and [send_post] return or raise, and the random
    draw. *)
Record env := {
  now_reset : datetime;
  now_find : datetime;
  now_mark : nat -> datetime;
  login_ok : bool;
  send_ok : bool;
  draw : nat
}.

Definition log (ev : event) (w : world) : world :=
  {| scheduled_posts_file := scheduled_posts_file w;
     regular_posts_file := regular_posts_file w;
     state_file := state_file w;
     trace := trace w ++ [ev] |}.

Definition write_scheduled (posts : list post) (w : world) : world :=
  {| scheduled_posts_file := Holds posts;
     regular_posts_file := regular_posts_file w;
     state_file := state_file w;
     trace := trace w ++ [WriteScheduled] |}.

Definition write_state (recent_posts : list str) (w : world) : world :=
  {| scheduled_posts_file := scheduled_posts_file w;
     regular_posts_file := regular_posts_file w;
     state_file := Holds (Some recent_posts);
     trace := trace w ++ [WriteState] |}.

(** ** [BlueskyBot] *)

(** [False] when [Client()] or [login] raises. *)
Definition authenticate (e : env) (w : world) : bool * world :=
  (login_ok e, log Login w).

(** [self.client.send_post(text=...)]: [false] stands for a raised
    exception. *)
Definition send_post (e : env) (body : str) (w : world) : bool * world :=
  (send_ok e, log (SendPost body) w).

Definition load_scheduled_posts (w : world) : list post :=
  match scheduled_posts_file w with
  | Holds posts => posts
  | Absent | Corrupt _ => []
  end.

Definition load_regular_posts (w : world) : list str :=
  match regular_posts_file w with
  | Holds content =>
      List.map strip
        (filter (fun line => negb (is_empty (strip line))) (file_lines content))
  | Absent | Corrupt _ => []
  end.

Definition load_state (w : world) : list str :=
  match state_file w with
  | Holds (Some recent_posts) => recent_posts
  | Holds None | Absent | Corrupt _ => []
  end.

Definition save_state (recent_posts : list str) (w : world) : world :=
  let recent_posts := slice_last 220 recent_posts in
  write_state recent_posts w.

(** The body of the loop of [reset_annual_posts_if_new_year] for one post. *)
Definition reset_post (p : post) : post :=
  if get_posted p then
    {| date := date p; text := text p; posted := Some false;
       posted_at := None; other_keys := other_keys p |}
  else p.

(** The loop: the posts after it, and [reset_count]. *)
Fixpoint reset_loop (posts : list post) : list post * nat :=
  match posts with
  | [] => ([], 0)
  | p :: rest =>
      let (rest', reset_count) := reset_loop rest in
      if get_posted p then (reset_post p :: rest', S reset_count)
      else (p :: rest', reset_count)
  end.

Definition reset_annual_posts_if_new_year (e : env) (w : world) : world :=
  let today := now_reset e in
  if negb (month today =? 1)%N || negb (day today =? 1)%N then w
  else
    let scheduled_posts := load_scheduled_posts w in
    let (scheduled_posts, reset_count) := reset_loop scheduled_posts in
    if 0 <? reset_count then write_scheduled scheduled_posts w else w.

(** The loop of [find_scheduled_post_for_today]. *)
Fixpoint find_loop (today_month_day : str) (posts : list post) : option post :=
  match posts with
  | [] => None
  | p :: rest =>
      let post_date := get_date p in
      if 10 <=? length post_date then
        let post_month_day := slice_from 5 post_date in
        if str_eqb post_month_day today_month_day then
          if get_posted p then find_loop today_month_day rest
          else Some p
        else find_loop today_month_day rest
      else find_loop today_month_day rest
  end.

Definition find_scheduled_post_for_today (e : env) (w : world) : option post :=
  let scheduled_posts := load_scheduled_posts w in
  let today_month_day := strftime_md (now_find e) in
  find_loop today_month_day scheduled_posts.

(** The body of the loop of [mark_scheduled_post_as_sent] for one post. *)
Definition mark_post (post_month_day stamp : str) (p : post) : post :=
  let post_date := get_date p in
  if 10 <=? length post_date then
    if str_eqb (slice_from 5 post_date) post_month_day then
      {| date := date p; text := text p;
         posted := Some true; posted_at := Some stamp;
         other_keys := other_keys p |}
    else p
  else p.

(** The loop, from the entry of index [i] on. *)
Fixpoint mark_loop (e : env) (post_month_day : str) (i : nat)
    (posts : list post) : list post :=
  match posts with
  | [] => []
  | p :: rest =>
      mark_post post_month_day (isoformat (now_mark e i)) p
      :: mark_loop e post_month_day (S i) rest
  end.

Definition mark_scheduled_post_as_sent
    (e : env) (post_month_day : str) (w : world) : world :=
  let scheduled_posts := load_scheduled_posts w in
  let scheduled_posts := mark_loop e post_month_day 0 scheduled_posts in
  write_scheduled scheduled_posts w.

(** The first branch of [post_next]: a scheduled post was found. *)
Definition post_scheduled (e : env) (scheduled_post : post) (w : world)
  : bool * world :=
  let post_text := get_text scheduled_post in
  let post_date := get_date scheduled_post in
  let post_month_day :=
    if 10 <=? length post_date then slice_from 5 post_date else [] in
  if is_empty post_text then (false, w)
  else
    let (authenticated, w) := authenticate e w in
    if negb authenticated then (false, w)
    else
      let (returned, w) := send_post e post_text w in
      if negb returned then (false, w)
      else (true, mark_scheduled_post_as_sent e post_month_day w).

(** Lines 242 to 248 of [post_next]: the posts not used recently and the
    history to extend; when every post was used recently, the whole pool and
    an empty history. *)
Definition available_and_recent (regular_posts recent_posts : list str)
  : list str * list str :=
  let available_posts :=
    filter (fun p => negb (contains recent_posts p)) regular_posts in
  if is_empty available_posts then (regular_posts, [])
  else (available_posts, recent_posts).

(** The second branch of [post_next]: regular rotation. *)
Definition post_regular (e : env) (w : world) : bool * world :=
  let regular_posts := load_regular_posts w in
  if is_empty regular_posts then (false, w)
  else
    let recent_posts := load_state w in
    let (available_posts, recent_posts) :=
      available_and_recent regular_posts recent_posts in
    let post_text := choice (draw e) available_posts in
    let (authenticated, w) := authenticate e w in
    if negb authenticated then (false, w)
    else
      let (returned, w) := send_post e post_text w in
      if negb returned then (false, w)
      else
        let recent_posts := recent_posts ++ [post_text] in
        (true, save_state recent_posts w).

Definition post_next (e : env) (w : world) : bool * world :=
  let w := reset_annual_posts_if_new_year e w in
  match find_scheduled_post_for_today e w with
  | Some scheduled_post =>
      if truthy scheduled_post then post_scheduled e scheduled_post w
      else post_regular e w
  | None => post_regular e w
  end.

(** ** [main] *)

(** [not os.getenv(...)]: unset or empty. *)
Definition missing (v : option str) : bool :=
  match v with None => true | Some s => is_empty s end.

(** The exit status and the world [main] leaves behind. *)
Definition main (BLUESKY_HANDLE BLUESKY_PASSWORD : option str)
    (e : env) (w : world) : nat * world :=
  if missing BLUESKY_HANDLE || missing BLUESKY_PASSWORD then (1, w)
  else
    let (success, w) := post_next e w in
    if success then (0, w) else (1, w).

(** ** Vocabulary of the properties *)

(** The reset's clock reading is a January 1st. *)
Definition new_year (e : env) : Prop :=
  month (now_reset e) = 1%N /\ day (now_reset e) = 1%N.

(** The month-day key of a post, as the script takes it: the date from index
    5 on, for a date of at least 10 characters. *)
Definition matches (month_day : str) (p : post) : Prop :=
  10 <= length (get_date p) /\ slice_from 5 (get_date p) = month_day.

(** A post the selector may return today: its key is today's and its
    [posted] flag is not set. *)
Definition due (month_day : str) (p : post) : Prop :=
  matches month_day p /\ get_posted p = false.

(** A post as [mark_scheduled_post_as_sent] leaves it. *)
Definition marked (stamp : str) (p : post) : post :=
  {| date := date p; text := text p;
     posted := Some true; posted_at := Some stamp;
     other_keys := other_keys p |}.

(** A post as the annual reset leaves it. *)
Definition cleared (p : post) : post :=
  {| date := date p; text := text p; posted := Some false;
     posted_at := None; other_keys := other_keys p |}.

(** A line made of whitespace only, its line end included; the empty line is
    one. *)
Definition blank (line : str) : bool := forallb isspace line.

(** Events that reach the network. *)
Definition is_dispatch (ev : event) : bool :=
  match ev with
  | Login | SendPost _ => true
  | WriteScheduled | WriteState => false
  end.

(** Two worlds with the same three files. *)
Definition same_files (w w' : world) : Prop :=
  scheduled_posts_file w' = scheduled_posts_file w /\
  regular_posts_file w' = regular_posts_file w /\
  state_file w' = state_file w.

(** What a post says, as opposed to whether it was sent: its date, its text
    and its other keys. *)
Definition content (p : post) : option str * option str * list (str * str) :=
  (date p, text p, other_keys p).

(** What one run can add to the trace once the annual reset is over: when it
    returns [True], a login, one send and one write, in this order; when it
    returns [False], nothing, a login, or a login and one send. *)
Definition attempt (success : bool) (evs : list event) : Prop :=
  if success then
    exists body,
      evs = [Login; SendPost body; WriteScheduled] \/
      evs = [Login; SendPost body; WriteState]
  else
    evs = [] \/ evs = [Login] \/ exists body, evs = [Login; SendPost body].

(** ** Concrete runs *)

(** A clock reading at nine in the morning. *)
Definition morning (y m d : N) : datetime :=
  {| year := y; month := m; day := d;
     hour := 9; minute := 0; second := 0; microsecond := 0 |}.

(** A run short enough for every clock reading to give the same instant. *)
Definition run_at (t : datetime) (login send : bool) (r : nat) : env :=
  {| now_reset := t; now_find := t; now_mark := fun _ => t;
     login_ok := login; send_ok := send; draw := r |}.

(** A working directory before the run: nothing has happened yet. *)
Definition disk (scheduled : file (list post)) (regular : file str)
    (state : file (option (list str))) : world :=
  {| scheduled_posts_file := scheduled; regular_posts_file := regular;
     state_file := state; trace := [] |}.

Definition unsent (d body : string) : post :=
  {| date := Some (u d); text := Some (u body);
     posted := Some false; posted_at := None; other_keys := [] |}.

Definition sent (d body stamp : string) : post :=
  {| date := Some (u d); text := Some (u body);
     posted := Some true; posted_at := Some (u stamp);
     other_keys := [(u "priority", u "1")] |}.

Definition xmas_2023 : post := unsent "2023-12-25" "Merry Xmas".
Definition xmas_2024 : post := unsent "2024-12-25" "Season's greetings".
Definition july_4th : post :=
  sent "2025-07-04" "Happy Fourth" "2025-07-04T09:00:00".
Definition new_year_blank : post :=
  {| date := Some (u "2025-01-01"); text := Some [];
     posted := Some false; posted_at := None; other_keys := [] |}.

(** Christmas morning, two entries for the day, the network up. *)
Definition xmas_run : env := run_at (morning 2025 12 25) true true 0.
Definition xmas_disk : world :=
  disk (Holds [xmas_2023; xmas_2024]) Absent Absent.


Definition new_year_online : env := run_at (morning 2026 1 1) true true 0.
Definition july_disk : world :=
  disk (Holds [july_4th]) (Holds (u "hello")) Absent.

(** The same morning with no regular posts file. *)
Definition july_disk_no_pool : world :=
  disk (Holds [july_4th]) Absent Absent.



(** Regular pools of one-letter posts, and a history that has seen "a" and
    "b". *)
Definition newline : str := [10%N].
Definition abc_pool : str :=
  u "a" ++ newline ++ u "b" ++ newline ++ u "c" ++ newline.
Definition ab_pool : str := u "a" ++ newline ++ u "b" ++ newline.
Definition abc_disk : world :=
  disk Absent (Holds abc_pool) (Holds (Some [u "a"; u "b"])).
Definition ab_disk : world :=
  disk Absent (Holds ab_pool) (Holds (Some [u "a"; u "b"])).

(** A regular posts file with padded, blank and CRLF-ended lines. *)
Definition ragged_pool : str :=
  u "  first post " ++ [13; 10]%N ++ newline ++ u "   " ++ newline
  ++ [9%N] ++ u "second post".
Definition ragged_disk : world := disk Absent (Holds ragged_pool) Absent.

(** New Year's morning with a greeting for the day. *)
Definition new_year_greeting : post := unsent "2025-01-01" "Happy New Year".
Definition greeting_disk : world :=
  disk (Holds [july_4th; new_year_greeting]) Absent Absent.

(** New Year's morning with last year's greeting still flagged. *)
Definition new_year_2025 : post :=
  sent "2025-01-01" "Happy New Year" "2025-01-01T09:00:00".

(** The same morning without a regular posts file, and with a textless
    entry for the day stored after the flagged greeting. *)
Definition greeted_disk_no_pool : world :=
  disk (Holds [new_year_2025]) Absent Absent.
Definition greeted_blank_disk : world :=
  disk (Holds [new_year_2025; new_year_blank]) (Holds (u "hello")) Absent.

(** Christmas morning, the login refused. *)
Definition xmas_offline : env := run_at (morning 2025 12 25) false true 0.

(** The three-letter pool with a history that has seen "a" only. *)
Definition a_disk : world :=
  disk Absent (Holds abc_pool) (Holds (Some [u "a"])).

(** The two-letter pool with a history that has seen "a" only, and the
    three-letter pool beside a history file cut short. *)
Definition ab_one_disk : world :=
  disk Absent (Holds ab_pool) (Holds (Some [u "a"])).
Definition cut_state_disk : world :=
  disk Absent (Holds abc_pool) (Corrupt (u "{")).

(** An ordinary day. *)
Definition spring_draw_1 : env := run_at (morning 2026 4 2) true true 1.
Definition spring_online : env := run_at (morning 2026 4 2) true true 0.

(** * Properties *)

(** ** Python primitives *)

Lemma str_eqb_eq (a b : str) : str_eqb a b = true <-> a = b.
Proof.
  revert b; induction a as [|x a IH]; intros [|y b]; simpl;
    try (split; [discriminate | congruence]); try tauto.
  rewrite andb_true_iff, N.eqb_eq, IH.
  split; [intros [-> ->]; reflexivity | intros [= -> ->]; auto].
Qed.

Lemma str_eqb_refl (a : str) : str_eqb a a = true.
Proof. apply str_eqb_eq; reflexivity. Qed.

Lemma contains_In (l : list str) (x : str) : contains l x = true <-> In x l.
Proof.
  unfold contains; rewrite existsb_exists; split.
  - intros (y & Hy & E); apply str_eqb_eq in E; subst; exact Hy.
  - intros H; exists x; split; [exact H | apply str_eqb_refl].
Qed.

Lemma contains_false (l : list str) (x : str) :
  contains l x = false <-> ~ In x l.
Proof.
  rewrite <- contains_In; destruct (contains l x); split;
    congruence || tauto.
Qed.

Lemma is_empty_nil {A} (l : list A) : is_empty l = true <-> l = [].
Proof. destruct l; simpl; split; congruence. Qed.

Lemma is_empty_cons {A} (l : list A) : is_empty l = false <-> l <> [].
Proof. destruct l; simpl; split; congruence. Qed.

Lemma slice_last_length {A} (n : nat) (l : list A) :
  length (slice_last n l) = Nat.min n (length l).
Proof. unfold slice_last; rewrite length_skipn; lia. Qed.

Lemma slice_last_suffix {A} (n : nat) (l : list A) :
  firstn (length l - n) l ++ slice_last n l = l.
Proof. apply firstn_skipn. Qed.

Lemma slice_last_short {A} (n : nat) (l : list A) :
  length l <= n -> slice_last n l = l.
Proof.
  intros H; unfold slice_last.
  replace (length l - n) with 0 by lia; reflexivity.
Qed.

Lemma choice_In (r : nat) (seq : list str) :
  seq <> [] -> In (choice r seq) seq.
Proof.
  intros H; unfold choice; apply nth_In.
  apply Nat.mod_upper_bound. destruct seq; simpl; congruence.
Qed.

(** Every element of a sequence is the outcome of some draw. *)
Lemma choice_onto (seq : list str) (x : str) :
  In x seq -> exists r, choice r seq = x.
Proof.
  intros H. destruct (In_nth seq x [] H) as (i & Hi & E).
  exists i; unfold choice. rewrite Nat.mod_small by exact Hi. exact E.
Qed.

(** ** The recency history file *)

Lemma load_state_save_state (recent_posts : list str) (w : world) :
  load_state (save_state recent_posts w) = slice_last 220 recent_posts.
Proof. reflexivity. Qed.

(** C5. [save_state] persists the last 220 entries of the sequence it is
    given, in their order (the whole sequence when it is shorter), so the
    saved history has at most 220 entries whatever the input length. *)
Theorem save_state_keeps_last_220 (recent_posts : list str) (w : world) :
  exists dropped kept : list str,
    recent_posts = dropped ++ kept /\
    state_file (save_state recent_posts w) = Holds (Some kept) /\
    load_state (save_state recent_posts w) = kept /\
    length kept = Nat.min 220 (length recent_posts) /\
    length kept <= 220.
Proof.
  exists (firstn (length recent_posts - 220) recent_posts),
         (slice_last 220 recent_posts).
  repeat split.
  - symmetry; apply slice_last_suffix.
  - apply slice_last_length.
  - rewrite slice_last_length; lia.
Qed.

(** ** The annual reset *)


Lemma reset_post_unposted (p : post) :
  get_posted p = false -> reset_post p = p.
Proof. unfold reset_post; intros ->; reflexivity. Qed.

Lemma get_posted_reset_post (p : post) : get_posted (reset_post p) = false.
Proof. unfold reset_post; destruct (get_posted p) eqn:E; [reflexivity | exact E]. Qed.

Lemma reset_loop_posts (posts : list post) :
  fst (reset_loop posts) = map reset_post posts.
Proof.
  induction posts as [|p rest IH]; simpl; [reflexivity|].
  destruct (reset_loop rest) as [rest' n]; simpl in IH; subst rest'.
  destruct (get_posted p) eqn:E; simpl.
  - reflexivity.
  - rewrite reset_post_unposted by exact E; reflexivity.
Qed.

Lemma reset_loop_count (posts : list post) :
  (0 <? snd (reset_loop posts)) = existsb get_posted posts.
Proof.
  induction posts as [|p rest IH]; simpl; [reflexivity|].
  destruct (reset_loop rest) as [rest' n]; simpl in IH.
  destruct (get_posted p); simpl; [reflexivity | exact IH].
Qed.


Lemma map_reset_unposted (posts : list post) :
  existsb get_posted posts = false -> map reset_post posts = posts.
Proof.
  induction posts as [|p rest IH]; simpl; [reflexivity|].
  intros H; apply orb_false_iff in H; destruct H as [Hp Hrest].
  rewrite reset_post_unposted, IH by assumption; reflexivity.
Qed.

Lemma new_year_dec (e : env) :
  negb (month (now_reset e) =? 1)%N || negb (day (now_reset e) =? 1)%N = false
  <-> new_year e.
Proof.
  unfold new_year; rewrite orb_false_iff, !negb_false_iff, !N.eqb_eq; tauto.
Qed.

Lemma reset_not_new_year (e : env) (w : world) :
  ~ new_year e -> reset_annual_posts_if_new_year e w = w.
Proof.
  intros H; unfold reset_annual_posts_if_new_year.
  destruct (negb _ || negb _) eqn:E; [reflexivity|].
  apply new_year_dec in E; contradiction.
Qed.

Lemma reset_new_year (e : env) (w : world) :
  new_year e ->
  reset_annual_posts_if_new_year e w =
    if existsb get_posted (load_scheduled_posts w)
    then write_scheduled (map reset_post (load_scheduled_posts w)) w
    else w.
Proof.
  intros H; apply new_year_dec in H.
  unfold reset_annual_posts_if_new_year; rewrite H.
  pose proof (reset_loop_posts (load_scheduled_posts w)) as Hp.
  pose proof (reset_loop_count (load_scheduled_posts w)) as Hc.
  destruct (reset_loop (load_scheduled_posts w)) as [posts' n]; simpl in *.
  rewrite Hc, Hp; reflexivity.
Qed.

(** Whatever the date, the reset leaves a world it does not change again. *)
Lemma reset_case (e : env) (w : world) :
  reset_annual_posts_if_new_year e w = w \/
  (new_year e /\ existsb get_posted (load_scheduled_posts w) = true /\
   reset_annual_posts_if_new_year e w =
     write_scheduled (map reset_post (load_scheduled_posts w)) w).
Proof.
  destruct (negb (month (now_reset e) =? 1)%N || negb (day (now_reset e) =? 1)%N) eqn:E.
  - left; unfold reset_annual_posts_if_new_year; rewrite E; reflexivity.
  - apply new_year_dec in E. rewrite reset_new_year by exact E.
    destruct (existsb get_posted (load_scheduled_posts w)) eqn:X; auto.
Qed.

Lemma reset_regular_file (e : env) (w : world) :
  regular_posts_file (reset_annual_posts_if_new_year e w) = regular_posts_file w.
Proof. destruct (reset_case e w) as [-> | (_ & _ & ->)]; reflexivity. Qed.

Lemma reset_state_file (e : env) (w : world) :
  state_file (reset_annual_posts_if_new_year e w) = state_file w.
Proof. destruct (reset_case e w) as [-> | (_ & _ & ->)]; reflexivity. Qed.

Lemma reset_load_scheduled (e : env) (w : world) :
  new_year e ->
  load_scheduled_posts (reset_annual_posts_if_new_year e w)
  = map reset_post (load_scheduled_posts w).
Proof.
  intros H; rewrite reset_new_year by exact H.
  destruct (existsb get_posted (load_scheduled_posts w)) eqn:X.
  - reflexivity.
  - symmetry; apply map_reset_unposted; exact X.
Qed.



(** ** Selection of the scheduled post *)

Lemma matches_dec (month_day : str) (p : post) :
  (10 <=? length (get_date p)) && str_eqb (slice_from 5 (get_date p)) month_day = true
  <-> matches month_day p.
Proof.
  unfold matches; rewrite andb_true_iff, Nat.leb_le, str_eqb_eq; tauto.
Qed.

Lemma find_loop_cons (month_day : str) (p : post) (rest : list post) :
  find_loop month_day (p :: rest) =
    if (10 <=? length (get_date p)) && str_eqb (slice_from 5 (get_date p)) month_day
       && negb (get_posted p)
    then Some p else find_loop month_day rest.
Proof.
  cbn [find_loop]; cbv zeta.
  destruct (10 <=? length (get_date p)); cbn [andb]; [|reflexivity].
  destruct (str_eqb _ month_day); cbn [andb]; [|reflexivity].
  destruct (get_posted p); reflexivity.
Qed.

Lemma due_dec (month_day : str) (p : post) :
  (10 <=? length (get_date p)) && str_eqb (slice_from 5 (get_date p)) month_day
  && negb (get_posted p) = true <-> due month_day p.
Proof.
  unfold due; rewrite andb_true_iff, matches_dec, negb_true_iff; tauto.
Qed.

Lemma find_loop_some (month_day : str) (posts : list post) (p : post) :
  find_loop month_day posts = Some p ->
  exists before after,
    posts = before ++ p :: after /\ due month_day p /\
    forall q, In q before -> ~ due month_day q.
Proof.
  induction posts as [|q rest IH]; [discriminate|].
  rewrite find_loop_cons.
  destruct (_ && _ && negb (get_posted q)) eqn:E.
  - intros [= <-]. exists [], rest; repeat split.
    + apply due_dec in E; apply E.
    + apply due_dec in E; apply E.
    + apply due_dec in E; apply E.
    + intros ? [].
  - intros H; destruct (IH H) as (before & after & -> & Hd & Hb).
    exists (q :: before), after; repeat split; try apply Hd.
    intros q' [<- | Hin]; [|apply Hb; exact Hin].
    intros Hq; apply due_dec in Hq; congruence.
Qed.

Lemma find_loop_none (month_day : str) (posts : list post) :
  find_loop month_day posts = None <->
  forall q, In q posts -> ~ due month_day q.
Proof.
  induction posts as [|q rest IH].
  - simpl; split; [intros _ ? [] | reflexivity].
  - rewrite find_loop_cons.
    destruct (_ && _ && negb (get_posted q)) eqn:E.
    + split; [discriminate|].
      intros H; exfalso; apply (H q (or_introl eq_refl)); apply due_dec; exact E.
    + rewrite IH; split.
      * intros H q' [<- | Hin]; [|apply H; exact Hin].
        intros Hq; apply due_dec in Hq; congruence.
      * intros H q' Hin; apply H; right; exact Hin.
Qed.


Lemma found_is_truthy (month_day : str) (p : post) :
  matches month_day p -> truthy p = true.
Proof.
  intros [Hlen _]; unfold truthy, get_date in *.
  destruct (date p); [reflexivity | simpl in Hlen; lia].
Qed.


(** ** Marking a scheduled post as sent *)

Lemma mark_post_matches (month_day stamp : str) (q : post) :
  matches month_day q -> mark_post month_day stamp q = marked stamp q.
Proof.
  intros [Hlen Hkey]; unfold mark_post.
  apply Nat.leb_le in Hlen; rewrite Hlen.
  apply str_eqb_eq in Hkey; rewrite Hkey; reflexivity.
Qed.



Lemma load_scheduled_mark (e : env) (month_day : str) (w : world) :
  load_scheduled_posts (mark_scheduled_post_as_sent e month_day w)
  = mark_loop e month_day 0 (load_scheduled_posts w).
Proof. reflexivity. Qed.



Lemma post_scheduled_unfold (e : env) (p : post) (w : world) :
  post_scheduled e p w =
    if is_empty (get_text p) then (false, w)
    else if negb (login_ok e) then (false, log Login w)
    else if negb (send_ok e)
         then (false, log (SendPost (get_text p)) (log Login w))
         else (true,
               mark_scheduled_post_as_sent e
                 (if 10 <=? length (get_date p)
                  then slice_from 5 (get_date p) else [])
                 (log (SendPost (get_text p)) (log Login w))).
Proof. reflexivity. Qed.

Lemma post_regular_unfold (e : env) (w : world) :
  post_regular e w =
    if is_empty (load_regular_posts w) then (false, w)
    else
      let ar := available_and_recent (load_regular_posts w) (load_state w) in
      let post_text := choice (draw e) (fst ar) in
      if negb (login_ok e) then (false, log Login w)
      else if negb (send_ok e)
           then (false, log (SendPost post_text) (log Login w))
           else (true,
                 save_state (snd ar ++ [post_text])
                   (log (SendPost post_text) (log Login w))).
Proof.
  unfold post_regular.
  destruct (is_empty (load_regular_posts w)); [reflexivity|].
  destruct (available_and_recent _ _) as [available recent]; reflexivity.
Qed.

Lemma post_next_found (e : env) (w : world) (p : post) :
  find_scheduled_post_for_today e (reset_annual_posts_if_new_year e w) = Some p ->
  post_next e w = post_scheduled e p (reset_annual_posts_if_new_year e w).
Proof.
  intros F; unfold post_next; rewrite F.
  apply find_loop_some in F; destruct F as (_ & _ & _ & [Hm _] & _).
  rewrite (found_is_truthy Hm); reflexivity.
Qed.

Lemma post_next_not_found (e : env) (w : world) :
  find_scheduled_post_for_today e (reset_annual_posts_if_new_year e w) = None ->
  post_next e w = post_regular e (reset_annual_posts_if_new_year e w).
Proof. intros F; unfold post_next; rewrite F; reflexivity. Qed.

(** ** The collection the selector sees *)

Lemma get_date_reset_post (q : post) : get_date (reset_post q) = get_date q.
Proof. unfold reset_post; destruct (get_posted q); reflexivity. Qed.


Lemma matches_reset_post (month_day : str) (q : post) :
  matches month_day (reset_post q) <-> matches month_day q.
Proof. unfold matches; rewrite get_date_reset_post; tauto. Qed.

(** Once the reset has run, an entry is due exactly when its key is
    today's. *)
Lemma due_reset_post (month_day : str) (q : post) :
  due month_day (reset_post q) <-> matches month_day q.
Proof.
  unfold due; rewrite matches_reset_post, get_posted_reset_post; tauto.
Qed.


Lemma find_after_reset_none (e : env) (w : world) :
  new_year e ->
  (forall q, In q (load_scheduled_posts w) ->
     ~ matches (strftime_md (now_find e)) q) ->
  find_scheduled_post_for_today e (reset_annual_posts_if_new_year e w) = None.
Proof.
  intros NY Hnone; unfold find_scheduled_post_for_today.
  rewrite reset_load_scheduled by exact NY.
  apply find_loop_none; intros q' Hq'.
  apply in_map_iff in Hq'; destruct Hq' as (q & <- & Hq).
  rewrite due_reset_post; apply Hnone; exact Hq.
Qed.




Lemma new_year_or_not (e : env) : new_year e \/ ~ new_year e.
Proof.
  destruct (negb (month (now_reset e) =? 1)%N
            || negb (day (now_reset e) =? 1)%N) eqn:D.
  - right; intros NY; apply new_year_dec in NY; congruence.
  - left; apply new_year_dec; exact D.
Qed.


Lemma reset_new_year_flagged (e : env) (w : world) :
  new_year e ->
  (exists q, In q (load_scheduled_posts w) /\ get_posted q = true) ->
  reset_annual_posts_if_new_year e w
  = write_scheduled (map reset_post (load_scheduled_posts w)) w.
Proof.
  intros NY Hflag; rewrite reset_new_year by exact NY.
  apply existsb_exists in Hflag; rewrite Hflag; reflexivity.
Qed.

Lemma reset_none_flagged (e : env) (w : world) :
  (forall q, In q (load_scheduled_posts w) -> get_posted q = false) ->
  reset_annual_posts_if_new_year e w = w.
Proof.
  intros Hall.
  destruct (reset_case e w) as [-> | (_ & X & _)]; [reflexivity|].
  apply existsb_exists in X; destruct X as (q & Hin & Hposted).
  rewrite (Hall q Hin) in Hposted; discriminate.
Qed.

(** The selector finds nothing after the reset when, off January 1st, no
    stored entry is due and, on January 1st, no stored entry has today's
    key. *)
Lemma find_after_reset_stored_none (e : env) (w : world) :
  (~ new_year e ->
     forall q, In q (load_scheduled_posts w) ->
               ~ due (strftime_md (now_find e)) q) ->
  (new_year e ->
     forall q, In q (load_scheduled_posts w) ->
               ~ matches (strftime_md (now_find e)) q) ->
  find_scheduled_post_for_today e (reset_annual_posts_if_new_year e w) = None.
Proof.
  intros Hoff Hon. destruct (new_year_or_not e) as [NY | Hday].
  - apply find_after_reset_none; auto.
  - rewrite reset_not_new_year by exact Hday.
    apply find_loop_none, Hoff, Hday.
Qed.




(** New Year's morning with a greeting for the day after last July's entry:
    the greeting is sent and comes back flagged and stamped, and the July
    entry, stored as posted, comes back with its flag cleared. *)
Example new_year_send_clears_july :
  load_scheduled_posts greeting_disk = [july_4th; new_year_greeting] /\
  fst (post_next new_year_online greeting_disk) = true /\
  load_scheduled_posts (snd (post_next new_year_online greeting_disk))
    = [cleared july_4th;
       marked (u "2026-01-01T09:00:00") new_year_greeting].
Proof. repeat split. Qed.


(** ** Runs that fail *)

Lemma load_regular_reset (e : env) (w : world) :
  load_regular_posts (reset_annual_posts_if_new_year e w) = load_regular_posts w.
Proof. unfold load_regular_posts; rewrite reset_regular_file; reflexivity. Qed.

Lemma load_state_reset (e : env) (w : world) :
  load_state (reset_annual_posts_if_new_year e w) = load_state w.
Proof. unfold load_state; rewrite reset_state_file; reflexivity. Qed.

Lemma same_files_refl (w : world) : same_files w w.
Proof. repeat split. Qed.

Lemma same_files_log (ev : event) (w : world) : same_files w (log ev w).
Proof. repeat split. Qed.

(** What the reset adds to the trace. *)
Lemma reset_trace (e : env) (w : world) :
  trace (reset_annual_posts_if_new_year e w) = trace w \/
  (new_year e /\
   trace (reset_annual_posts_if_new_year e w) = trace w ++ [WriteScheduled]).
Proof.
  destruct (reset_case e w) as [-> | (NY & _ & ->)]; [left | right]; auto.
Qed.

(** A branch that returns [False] has written no file and at most tried the
    network. *)
Lemma post_scheduled_failure (e : env) (p : post) (w : world) :
  fst (post_scheduled e p w) = false ->
  same_files w (snd (post_scheduled e p w)) /\
  exists evs,
    trace (snd (post_scheduled e p w)) = trace w ++ evs /\
    forallb is_dispatch evs = true.
Proof.
  rewrite post_scheduled_unfold.
  destruct (is_empty (get_text p)); cbn [fst snd].
  { intros _; split; [apply same_files_refl|].
    exists []; rewrite app_nil_r; auto. }
  destruct (login_ok e); cbn [negb fst snd].
  2:{ intros _; split; [apply same_files_log|]. exists [Login]; auto. }
  destruct (send_ok e); cbn [negb fst snd]; [discriminate|].
  intros _; split; [repeat split|].
  exists [Login; SendPost (get_text p)]; split; [|reflexivity].
  cbn [trace log]; rewrite <- app_assoc; reflexivity.
Qed.


Lemma post_scheduled_needs_network (e : env) (p : post) (w : world) :
  login_ok e = false \/ send_ok e = false -> fst (post_scheduled e p w) = false.
Proof.
  rewrite post_scheduled_unfold.
  destruct (is_empty (get_text p)); [reflexivity|].
  destruct (login_ok e); [|reflexivity].
  destruct (send_ok e); [intros [H | H]; discriminate | reflexivity].
Qed.


(** [post_next] is one of its two branches, run after the reset. *)
Lemma post_next_branch (e : env) (w : world) :
  (exists p, post_next e w
             = post_scheduled e p (reset_annual_posts_if_new_year e w)) \/
  post_next e w = post_regular e (reset_annual_posts_if_new_year e w).
Proof.
  unfold post_next.
  destruct (find_scheduled_post_for_today _ _) as [p|]; [|right; reflexivity].
  destruct (truthy p); [left; exists p; reflexivity | right; reflexivity].
Qed.






(** C8. A run with nothing to post fails.  Nothing to post means an empty
    regular pool and no scheduled post for the run to select: off January
    1st, no stored entry with today's month-day key has its [posted] flag
    unset; on January 1st, when the annual reset clears every flag before
    the selection, no stored entry has today's key at all.  Then [main]
    exits with status 1, the network is not touched, and the regular posts
    file and the state file are as they were.  Off January 1st, and on
    January 1st with no stored entry flagged posted, nothing at all has
    changed; on January 1st with some stored entry flagged posted, the
    scheduled posts file has been written by the annual reset. *)
Theorem no_content_run_fails
    (handle password : option str) (e : env) (w : world) :
  let w0 := reset_annual_posts_if_new_year e w in
  let posts := load_scheduled_posts w in
  let today_month_day := strftime_md (now_find e) in
  missing handle = false -> missing password = false ->
  load_regular_posts w = [] ->
  (~ new_year e -> forall q, In q posts -> ~ due today_month_day q) ->
  (new_year e -> forall q, In q posts -> ~ matches today_month_day q) ->
  post_next e w = (false, w0) /\
  main handle password e w = (1, w0) /\
  regular_posts_file w0 = regular_posts_file w /\
  state_file w0 = state_file w /\
  (trace w0 = trace w \/
   (new_year e /\ trace w0 = trace w ++ [WriteScheduled])) /\
  (~ new_year e -> main handle password e w = (1, w)) /\
  ((forall p, In p posts -> get_posted p = false) ->
     main handle password e w = (1, w)) /\
  (new_year e -> (exists p, In p posts /\ get_posted p = true) ->
     main handle password e w
     = (1, write_scheduled (map reset_post posts) w)).
Proof.
  cbv zeta; intros Hh Hp Hpool Hoff Hon.
  pose proof (find_after_reset_stored_none w Hoff Hon) as F.
  assert (Hrun : post_next e w = (false, reset_annual_posts_if_new_year e w)).
  { rewrite (post_next_not_found _ _ F), post_regular_unfold.
    rewrite load_regular_reset, Hpool; reflexivity. }
  assert (Hmain : main handle password e w
                  = (1, reset_annual_posts_if_new_year e w)).
  { unfold main; rewrite Hh, Hp, Hrun; reflexivity. }
  split; [exact Hrun|]. split; [exact Hmain|].
  split; [apply reset_regular_file|]. split; [apply reset_state_file|].
  split; [apply reset_trace|]. split; [|split].
  - intros NY; rewrite Hmain, reset_not_new_year by exact NY; reflexivity.
  - intros Hall; rewrite Hmain, reset_none_flagged by exact Hall; reflexivity.
  - intros NY Hflag.
    rewrite Hmain, reset_new_year_flagged by assumption; reflexivity.
Qed.

(** An ordinary day with nothing to post: exit status 1, nothing touched. *)
Lemma spring_no_content :
  main (Some (u "bot.bsky.social")) (Some (u "app-password"))
       spring_online july_disk_no_pool = (1, july_disk_no_pool).
Proof.
  destruct (@no_content_run_fails (Some (u "bot.bsky.social"))
              (Some (u "app-password")) spring_online july_disk_no_pool)
    as (_ & _ & _ & _ & _ & Hday & _).
  - reflexivity.
  - reflexivity.
  - reflexivity.
  - intros _ q Hq; vm_compute in Hq.
    destruct Hq as [<- | []]; intros [_ Hflag]; discriminate Hflag.
  - intros [Hm _]; discriminate Hm.
  - apply Hday. unfold new_year; simpl; intros [H _]; discriminate.
Defined.

(** New Year's morning, last year's greeting flagged posted and no regular
    pool: no stored entry for the day is unflagged, yet the run does not
    fail.  The reset clears the flag, the greeting is sent again and [main]
    exits with status 0. *)
Example new_year_flagged_greeting_exits_0 :
  (forall q, In q (load_scheduled_posts greeted_disk_no_pool) ->
     ~ due (strftime_md (now_find new_year_online)) q) /\
  load_regular_posts greeted_disk_no_pool = [] /\
  fst (main (Some (u "bot.bsky.social")) (Some (u "app-password"))
         new_year_online greeted_disk_no_pool) = 0 /\
  trace (snd (main (Some (u "bot.bsky.social")) (Some (u "app-password"))
                new_year_online greeted_disk_no_pool))
    = [WriteScheduled; Login; SendPost (u "Happy New Year"); WriteScheduled].
Proof.
  split; [|repeat split].
  intros q Hq; vm_compute in Hq.
  destruct Hq as [<- | []]; intros [_ Hflag]; discriminate Hflag.
Qed.

(** New Year's morning with nothing to post: no scheduled post is due,
    before or after the reset, and there is no regular pool; the run exits
    with status 1 without touching the network, but the scheduled posts
    file has been written. *)
Lemma new_year_no_content_writes_scheduled :
  find_scheduled_post_for_today new_year_online july_disk_no_pool = None /\
  find_scheduled_post_for_today new_year_online
    (reset_annual_posts_if_new_year new_year_online july_disk_no_pool) = None /\
  load_regular_posts july_disk_no_pool = [] /\
  fst (main (Some (u "bot.bsky.social")) (Some (u "app-password"))
         new_year_online july_disk_no_pool) = 1 /\
  trace (snd (main (Some (u "bot.bsky.social")) (Some (u "app-password"))
                new_year_online july_disk_no_pool)) = [WriteScheduled] /\
  scheduled_posts_file
    (snd (main (Some (u "bot.bsky.social")) (Some (u "app-password"))
            new_year_online july_disk_no_pool))
    <> scheduled_posts_file july_disk_no_pool.
Proof.
  repeat split; try reflexivity; vm_compute; discriminate.
Qed.



(** New Year's morning, last year's greeting flagged posted and stored
    before a textless entry for the day: the first stored entry for the day
    with its flag unset has no text, yet the run does not fail.  The reset
    clears the flag of the greeting, which is selected and sent again. *)
Example new_year_flagged_greeting_goes_first :
  find_scheduled_post_for_today new_year_online greeted_blank_disk
    = Some new_year_blank /\
  get_text new_year_blank = [] /\
  fst (post_next new_year_online greeted_blank_disk) = true /\
  trace (snd (post_next new_year_online greeted_blank_disk))
    = [WriteScheduled; Login; SendPost (u "Happy New Year"); WriteScheduled].
Proof. repeat split. Qed.


(** ** Regular rotation *)

Lemma available_exhausted (pool history : list str) :
  (forall p, In p pool -> In p history) ->
  available_and_recent pool history = (pool, []).
Proof.
  intros Hall; unfold available_and_recent.
  replace (filter (fun p => negb (contains history p)) pool) with (@nil str);
    [reflexivity|].
  symmetry; induction pool as [|x pool IH]; [reflexivity|].
  simpl. replace (contains history x) with true.
  - apply IH; intros p Hp; apply Hall; right; exact Hp.
  - symmetry; apply contains_In, Hall; left; reflexivity.
Qed.

Lemma available_fresh (pool history : list str) :
  (exists p, In p pool /\ ~ In p history) ->
  filter (fun p => negb (contains history p)) pool <> [] /\
  available_and_recent pool history
  = (filter (fun p => negb (contains history p)) pool, history).
Proof.
  intros (p & Hin & Hnew).
  assert (Hne : filter (fun p => negb (contains history p)) pool <> []).
  { intros E.
    assert (In p (filter (fun p => negb (contains history p)) pool)) as H.
    { apply filter_In; split; [exact Hin|].
      apply negb_true_iff, contains_false; exact Hnew. }
    rewrite E in H; destruct H. }
  split; [exact Hne|]. unfold available_and_recent.
  apply is_empty_cons in Hne; rewrite Hne; reflexivity.
Qed.

Lemma post_regular_success (e : env) (w : world) :
  load_regular_posts w <> [] ->
  login_ok e = true -> send_ok e = true ->
  let ar := available_and_recent (load_regular_posts w) (load_state w) in
  let chosen := choice (draw e) (fst ar) in
  post_regular e w
  = (true, save_state (snd ar ++ [chosen])
             (log (SendPost chosen) (log Login w))).
Proof.
  intros Hpool Hl Hs; rewrite post_regular_unfold.
  apply is_empty_cons in Hpool; rewrite Hpool, Hl, Hs; reflexivity.
Qed.

(** C6. When every post of a non-empty pool is in the history, the posts
    to choose from are the whole pool and the history to extend is empty:
    any post of the pool can be drawn, and after a successful send the
    history file holds the chosen text alone. *)
Theorem exhausted_pool_restarts_history (e : env) (w : world) :
  let w0 := reset_annual_posts_if_new_year e w in
  let pool := load_regular_posts w in
  let chosen := choice (draw e) pool in
  find_scheduled_post_for_today e w0 = None ->
  pool <> [] ->
  (forall p, In p pool -> In p (load_state w)) ->
  available_and_recent pool (load_state w) = (pool, []) /\
  In chosen pool /\
  (forall x, In x pool -> exists r, choice r pool = x) /\
  (login_ok e = true -> send_ok e = true ->
     exists w',
       post_next e w = (true, w') /\
       state_file w' = Holds (Some [chosen]) /\
       trace w' = trace w0 ++ [Login; SendPost chosen; WriteState]).
Proof.
  cbv zeta; intros F Hpool Hall.
  pose proof (available_exhausted _ _ Hall) as Hav.
  split; [exact Hav|]. split; [apply choice_In; exact Hpool|].
  split; [intros x Hx; apply choice_onto; exact Hx|].
  intros Hl Hs. rewrite (post_next_not_found _ _ F).
  rewrite post_regular_success by (rewrite ?load_regular_reset; assumption).
  cbv zeta; rewrite load_regular_reset, load_state_reset, Hav; cbn [fst snd].
  eexists; split; [reflexivity|]. split; [reflexivity|].
  cbn [save_state write_state trace log app]; rewrite <- !app_assoc; reflexivity.
Qed.

(** C7. When some post of the pool is not in the history, the chosen post
    is drawn from the posts of the pool that are not in the history, so it
    is in the pool and not in the history; after a successful send the
    history file holds the last 220 entries of the old history followed by
    the chosen text, which is all of them for a history shorter than 220. *)
Theorem fresh_post_chosen_and_appended (e : env) (w : world) :
  let w0 := reset_annual_posts_if_new_year e w in
  let pool := load_regular_posts w in
  let history := load_state w in
  let available := filter (fun p => negb (contains history p)) pool in
  let chosen := choice (draw e) available in
  find_scheduled_post_for_today e w0 = None ->
  (exists p, In p pool /\ ~ In p history) ->
  available_and_recent pool history = (available, history) /\
  In chosen pool /\ ~ In chosen history /\
  (login_ok e = true -> send_ok e = true ->
     exists w',
       post_next e w = (true, w') /\
       state_file w' = Holds (Some (slice_last 220 (history ++ [chosen]))) /\
       length (load_state w') <= 220 /\
       (length history < 220 ->
          state_file w' = Holds (Some (history ++ [chosen]))) /\
       trace w' = trace w0 ++ [Login; SendPost chosen; WriteState]).
Proof.
  cbv zeta; intros F Hfresh.
  destruct (available_fresh _ _ Hfresh) as (Hne & Hav).
  pose proof (choice_In (draw e) Hne) as Hin.
  apply filter_In in Hin; destruct Hin as (Hpool & Hnew).
  apply negb_true_iff, contains_false in Hnew.
  split; [exact Hav|]. split; [exact Hpool|]. split; [exact Hnew|].
  intros Hl Hs. rewrite (post_next_not_found _ _ F).
  assert (Hpool' : load_regular_posts w <> []).
  { intros E; rewrite E in Hpool; destruct Hpool. }
  rewrite post_regular_success by (rewrite ?load_regular_reset; assumption).
  cbv zeta; rewrite load_regular_reset, load_state_reset, Hav; cbn [fst snd].
  eexists; split; [reflexivity|]. split; [reflexivity|].
  split; [rewrite load_state_save_state, slice_last_length; lia|].
  split.
  - intros Hshort. cbn [save_state write_state state_file].
    rewrite slice_last_short; [reflexivity|].
    rewrite length_app; simpl; lia.
  - cbn [save_state write_state trace log app]; rewrite <- !app_assoc; reflexivity.
Qed.

(** The pool of the specification's first scenario: "c" is the only post
    not used recently, so it is the one sent and appended. *)
Lemma abc_appends_c :
  exists w',
    post_next spring_online abc_disk = (true, w') /\
    state_file w' = Holds (Some [u "a"; u "b"; u "c"]).
Proof.
  destruct (@fresh_post_chosen_and_appended spring_online abc_disk)
    as (_ & _ & _ & Hsend).
  - reflexivity.
  - exists (u "c"); split; [vm_compute; auto|].
    vm_compute; intros [H | [H | []]]; discriminate.
  - destruct (Hsend eq_refl eq_refl) as (w' & Hrun & _ & _ & Hfile & _).
    exists w'; split; [exact Hrun|]. apply Hfile; vm_compute; lia.
Defined.

(** The pool of the second scenario: both posts were used recently, the
    history starts again with the post sent. *)
Lemma ab_restarts_history :
  exists w',
    post_next spring_online ab_disk = (true, w') /\
    state_file w' = Holds (Some [u "a"]).
Proof.
  destruct (@exhausted_pool_restarts_history spring_online ab_disk)
    as (_ & _ & _ & Hsend).
  - reflexivity.
  - vm_compute; discriminate.
  - intros p Hp; vm_compute in Hp; vm_compute; tauto.
  - destruct (Hsend eq_refl eq_refl) as (w' & Hrun & Hfile & _).
    exists w'; split; [exact Hrun | exact Hfile].
Defined.

(** ** The regular pool *)

Lemma lstrip_nil (s : str) : lstrip s = [] <-> forallb isspace s = true.
Proof.
  induction s as [|c s IH]; simpl; [tauto|].
  destruct (isspace c); simpl; [exact IH|].
  split; discriminate.
Qed.

Lemma lstrip_head (s : str) (c : N) (t : str) :
  lstrip s = c :: t -> isspace c = false.
Proof.
  induction s as [|d s IH]; simpl; [discriminate|].
  destruct (isspace d) eqn:E; [exact IH|].
  intros [= <- _]; exact E.
Qed.

Lemma is_empty_strip (s : str) : is_empty (strip s) = blank s.
Proof.
  unfold strip, rstrip, blank.
  destruct (forallb isspace s) eqn:B.
  - apply lstrip_nil in B; rewrite B; reflexivity.
  - destruct (lstrip s) as [|c t] eqn:L.
    + apply lstrip_nil in L; congruence.
    + apply lstrip_head in L.
      destruct (lstrip (rev (c :: t))) as [|d r] eqn:R.
      * apply lstrip_nil in R. simpl rev in R.
        rewrite forallb_app in R; simpl in R; rewrite L in R.
        rewrite andb_false_r in R; discriminate.
      * simpl rev. destruct (rev r ++ [d]) eqn:X; [|reflexivity].
        destruct (rev r); discriminate.
Qed.

Lemma concat_lines_from (cur s : str) : concat (lines_from cur s) = cur ++ s.
Proof.
  revert cur; induction s as [|c rest IH]; intros cur; simpl.
  - destruct cur; simpl; rewrite ?app_nil_r; reflexivity.
  - destruct (c =? 10)%N; simpl; rewrite IH, <- ?app_assoc; reflexivity.
Qed.

Lemma in_removelast {A} (x : A) (l : list A) : In x (removelast l) -> In x l.
Proof.
  induction l as [|a l IH]; simpl; [tauto|].
  destruct l; [intros [] | intros [-> | H]; [left; reflexivity | right; auto]].
Qed.

(** A line is not empty and has no line feed before its last character. *)
Lemma lines_from_shape (cur s : str) :
  ~ In 10%N cur ->
  Forall (fun line => line <> [] /\ ~ In 10%N (removelast line))
         (lines_from cur s).
Proof.
  revert cur; induction s as [|c rest IH]; intros cur Hcur; simpl.
  - destruct cur as [|a cur]; constructor; [|constructor].
    split; [discriminate|]. intros H; apply Hcur, in_removelast, H.
  - destruct (c =? 10)%N eqn:E.
    + constructor; [|apply IH; intros []].
      split; [destruct cur; discriminate|].
      rewrite removelast_last; exact Hcur.
    + apply IH. intros H; apply in_app_or in H; destruct H as [H | [H | []]].
      * exact (Hcur H).
      * subst c; discriminate.
Qed.

(** C9. The regular pool is one post per line of the file that is not
    blank, in file order: the line with the whitespace around it removed.
    Empty and whitespace-only lines give no post, no post is empty, and a
    file that is absent (or cannot be read) gives the empty pool. *)
Theorem load_regular_posts_nonblank_lines (w : world) :
  match regular_posts_file w with
  | Holds content =>
      let lines := file_lines content in
      let kept := filter (fun line => negb (blank line)) lines in
      load_regular_posts w = map strip kept /\
      length (load_regular_posts w) = length kept /\
      (forall i, nth_error (load_regular_posts w) i
                 = option_map strip (nth_error kept i)) /\
      Forall (fun body => body <> []) (load_regular_posts w) /\
      concat lines = universal_newlines content /\
      Forall (fun line => line <> [] /\ ~ In 10%N (removelast line)) lines
  | Absent => load_regular_posts w = []
  | Corrupt _ => load_regular_posts w = []
  end.
Proof.
  unfold load_regular_posts.
  destruct (regular_posts_file w) as [| raw | content]; try reflexivity.
  cbv zeta.
  assert (E : filter (fun line => negb (is_empty (strip line))) (file_lines content)
              = filter (fun line => negb (blank line)) (file_lines content)).
  { apply filter_ext; intros line; rewrite is_empty_strip; reflexivity. }
  rewrite E. split; [reflexivity|]. split; [apply length_map|].
  split; [intros i; apply nth_error_map|]. split; [|split].
  - apply Forall_forall; intros body Hin.
    apply in_map_iff in Hin; destruct Hin as (line & <- & Hline).
    apply filter_In in Hline; destruct Hline as (_ & Hb).
    rewrite <- is_empty_strip in Hb.
    apply negb_true_iff, is_empty_cons in Hb; exact Hb.
  - unfold file_lines; apply (concat_lines_from []).
  - unfold file_lines; apply lines_from_shape; intros [].
Qed.

(** A ragged file: padding, a CRLF line end, an empty line, a line of
    spaces and a last line without line end give two posts. *)
Lemma ragged_pool_two_posts :
  file_lines ragged_pool
    = [u "  first post " ++ newline; newline; u "   " ++ newline;
       [9%N] ++ u "second post"] /\
  load_regular_posts ragged_disk = [u "first post"; u "second post"].
Proof. split; reflexivity. Qed.

(** ** The theorems at work *)




(** * Further properties of the script *)

(** ** One attempt per run *)

Lemma post_scheduled_attempt (e : env) (p : post) (w : world) :
  exists evs,
    trace (snd (post_scheduled e p w)) = trace w ++ evs /\
    attempt (fst (post_scheduled e p w)) evs.
Proof.
  rewrite post_scheduled_unfold.
  destruct (is_empty (get_text p)).
  { exists []; cbn; rewrite app_nil_r; auto. }
  destruct (login_ok e); cbn [negb].
  2:{ exists [Login]; cbn; auto. }
  destruct (send_ok e); cbn [negb].
  - exists [Login; SendPost (get_text p); WriteScheduled]; split.
    + cbn; rewrite <- !app_assoc; reflexivity.
    + exists (get_text p); left; reflexivity.
  - exists [Login; SendPost (get_text p)]; split.
    + cbn; rewrite <- !app_assoc; reflexivity.
    + right; right; exists (get_text p); reflexivity.
Qed.

Lemma post_regular_attempt (e : env) (w : world) :
  exists evs,
    trace (snd (post_regular e w)) = trace w ++ evs /\
    attempt (fst (post_regular e w)) evs.
Proof.
  rewrite post_regular_unfold.
  destruct (is_empty (load_regular_posts w)).
  { exists []; cbn; rewrite app_nil_r; auto. }
  cbv zeta; destruct (login_ok e); cbn [negb].
  2:{ exists [Login]; cbn; auto. }
  destruct (send_ok e); cbn [negb].
  - eexists [Login; SendPost _; WriteState]; split.
    + cbn; rewrite <- !app_assoc; reflexivity.
    + eexists; right; reflexivity.
  - eexists [Login; SendPost _]; split.
    + cbn; rewrite <- !app_assoc; reflexivity.
    + right; right; eexists; reflexivity.
Qed.

(** X1. Once the annual reset is over, a run logs in at most once, sends at
    most one post, and writes at most one file, after the send has returned;
    it returns [True] exactly when it has done all three. *)
Theorem post_next_makes_one_attempt (e : env) (w : world) :
  exists evs,
    trace (snd (post_next e w))
    = trace (reset_annual_posts_if_new_year e w) ++ evs /\
    attempt (fst (post_next e w)) evs /\
    (fst (post_next e w) = true <-> length evs = 3) /\
    (forall ev, In ev evs -> is_dispatch ev = false ->
       fst (post_next e w) = true /\ exists body, In (SendPost body) evs).
Proof.
  assert (H : exists evs,
            trace (snd (post_next e w))
            = trace (reset_annual_posts_if_new_year e w) ++ evs /\
            attempt (fst (post_next e w)) evs).
  { destruct (post_next_branch e w) as [[p ->] | ->].
    - apply post_scheduled_attempt.
    - apply post_regular_attempt. }
  destruct H as (evs & Ht & Ha); exists evs.
  split; [exact Ht|]. split; [exact Ha|].
  destruct (fst (post_next e w)); cbn [attempt] in Ha.
  - destruct Ha as (body & [-> | ->]); split.
    + split; reflexivity.
    + intros ev _ _; split; [reflexivity|]; exists body; simpl; auto.
    + split; reflexivity.
    + intros ev _ _; split; [reflexivity|]; exists body; simpl; auto.
  - destruct Ha as [-> | [-> | (body & ->)]]; split;
      try (split; simpl; discriminate).
    + intros ev [].
    + intros ev [<- | []]; discriminate.
    + intros ev [<- | [<- | []]]; discriminate.
Qed.

(** X2. [main] exits with status 0 or 1.  With a credential unset or empty
    it exits 1 before anything else happens, the annual reset included.
    Otherwise its status is 0 exactly when [post_next] returned [True], and
    then one post has been sent and one file written after it. *)
Theorem main_exit_status (handle password : option str) (e : env) (w : world) :
  (missing handle = true \/ missing password = true ->
     main handle password e w = (1, w)) /\
  (missing handle = false -> missing password = false ->
     snd (main handle password e w) = snd (post_next e w) /\
     (fst (main handle password e w) = 0 <-> fst (post_next e w) = true)) /\
  (fst (main handle password e w) = 0 \/ fst (main handle password e w) = 1) /\
  (fst (main handle password e w) = 0 ->
     missing handle = false /\ missing password = false /\
     exists body,
       trace (snd (main handle password e w))
       = trace (reset_annual_posts_if_new_year e w)
         ++ [Login; SendPost body; WriteScheduled] \/
       trace (snd (main handle password e w))
       = trace (reset_annual_posts_if_new_year e w)
         ++ [Login; SendPost body; WriteState]).
Proof.
  unfold main.
  destruct (missing handle) eqn:Hh; cbn [orb].
  { split; [reflexivity|]. split; [discriminate|].
    split; [right; reflexivity | discriminate]. }
  destruct (missing password) eqn:Hp; cbn [orb].
  { split; [reflexivity|]. split; [discriminate|].
    split; [right; reflexivity | discriminate]. }
  split; [intros [H | H]; discriminate|].
  assert (Ha : exists evs,
            trace (snd (post_next e w))
            = trace (reset_annual_posts_if_new_year e w) ++ evs /\
            attempt (fst (post_next e w)) evs).
  { destruct (post_next_branch e w) as [[p ->] | ->].
    - apply post_scheduled_attempt.
    - apply post_regular_attempt. }
  destruct (post_next e w) as [success w']; cbn [fst snd] in *.
  destruct success; cbn [fst snd].
  - split; [intros _ _; split; [reflexivity | tauto]|].
    split; [left; reflexivity|]. intros _.
    split; [reflexivity|]. split; [reflexivity|].
    destruct Ha as (evs & Ht & body & [-> | ->]); exists body; auto.
  - split; [intros _ _; split; [reflexivity | split; discriminate]|].
    split; [right; reflexivity | discriminate].
Qed.

(** New Year's morning without a password: status 1, and last July's entry
    keeps its flag, since the reset has not run. *)
Lemma no_password_no_reset :
  main (Some (u "bot.bsky.social")) None new_year_online july_disk
  = (1, july_disk).
Proof.
  destruct (main_exit_status (Some (u "bot.bsky.social")) None
              new_year_online july_disk) as (Hmissing & _).
  apply Hmissing; right; reflexivity.
Defined.

(** ** A scheduled post from one run to the next *)

Lemma get_date_mark_post (month_day stamp : str) (q : post) :
  get_date (mark_post month_day stamp q) = get_date q.
Proof.
  unfold mark_post.
  destruct (10 <=? length (get_date q)); [|reflexivity].
  destruct (str_eqb _ month_day); reflexivity.
Qed.

Lemma mark_post_not_due (month_day stamp : str) (q : post) :
  ~ due month_day (mark_post month_day stamp q).
Proof.
  intros [Hm Hflag]. unfold matches in Hm; rewrite get_date_mark_post in Hm.
  rewrite (mark_post_matches stamp Hm) in Hflag; discriminate.
Qed.

Lemma find_loop_mark_loop (e : env) (month_day : str) (posts : list post) :
  forall k, find_loop month_day (mark_loop e month_day k posts) = None.
Proof.
  intros k; apply find_loop_none; revert k.
  induction posts as [|p rest IH]; intros k q; simpl; [intros []|].
  intros [<- | Hin]; [apply mark_post_not_due | exact (IH _ _ Hin)].
Qed.




(** A successful scheduled run, in one equation. *)
Lemma post_next_scheduled_success (e : env) (w : world) (p : post) :
  find_scheduled_post_for_today e (reset_annual_posts_if_new_year e w) = Some p ->
  get_text p <> [] -> login_ok e = true -> send_ok e = true ->
  post_next e w
  = (true,
     mark_scheduled_post_as_sent e (strftime_md (now_find e))
       (log (SendPost (get_text p))
          (log Login (reset_annual_posts_if_new_year e w)))).
Proof.
  intros F Htext Hl Hs.
  rewrite (post_next_found _ _ F), post_scheduled_unfold.
  apply is_empty_cons in Htext; rewrite Htext, Hl, Hs; cbn [negb].
  apply find_loop_some in F; destruct F as (_ & _ & _ & [[Hlen Hkey] _] & _).
  apply Nat.leb_le in Hlen; rewrite Hlen, Hkey; reflexivity.
Qed.

(** X3. After a scheduled post has been sent, a later run on the same
    month-day that is not a January 1st run finds no scheduled post: every
    entry with that key is flagged, and the run is the regular rotation. *)
Theorem scheduled_post_sent_once_a_day (e1 e2 : env) (w : world) (p : post) :
  find_scheduled_post_for_today e1 (reset_annual_posts_if_new_year e1 w)
    = Some p ->
  get_text p <> [] -> login_ok e1 = true -> send_ok e1 = true ->
  strftime_md (now_find e2) = strftime_md (now_find e1) ->
  ~ new_year e2 ->
  let w1 := snd (post_next e1 w) in
  fst (post_next e1 w) = true /\
  find_scheduled_post_for_today e2 (reset_annual_posts_if_new_year e2 w1)
    = None /\
  post_next e2 w1 = post_regular e2 w1.
Proof.
  intros F Htext Hl Hs Hkey Hday; cbv zeta.
  rewrite (post_next_scheduled_success _ _ F Htext Hl Hs); cbn [fst snd].
  split; [reflexivity|].
  set (w1 := mark_scheduled_post_as_sent _ _ _).
  assert (F2 : find_scheduled_post_for_today e2
                 (reset_annual_posts_if_new_year e2 w1) = None).
  { rewrite reset_not_new_year by exact Hday.
    unfold find_scheduled_post_for_today; rewrite Hkey.
    unfold w1; rewrite load_scheduled_mark; apply find_loop_mark_loop. }
  split; [exact F2|].
  rewrite (post_next_not_found _ _ F2), reset_not_new_year by exact Hday.
  reflexivity.
Qed.

(** Christmas morning, twice: the second run is the regular rotation. *)
Lemma xmas_second_run_is_regular :
  post_next xmas_run (snd (post_next xmas_run xmas_disk))
  = post_regular xmas_run (snd (post_next xmas_run xmas_disk)).
Proof.
  destruct (@scheduled_post_sent_once_a_day xmas_run xmas_run xmas_disk xmas_2023)
    as (_ & _ & Hregular).
  - reflexivity.
  - simpl; discriminate.
  - reflexivity.
  - reflexivity.
  - reflexivity.
  - unfold new_year; simpl; intros [H _]; discriminate.
  - exact Hregular.
Defined.



(** ** What a run leaves alone *)





(** The scheduled collection after the first branch: as it was, or the
    marking loop over it. *)
Lemma post_scheduled_collection (e : env) (p : post) (w : world) :
  regular_posts_file (snd (post_scheduled e p w)) = regular_posts_file w /\
  state_file (snd (post_scheduled e p w)) = state_file w /\
  (scheduled_posts_file (snd (post_scheduled e p w)) = scheduled_posts_file w \/
   exists month_day,
     load_scheduled_posts (snd (post_scheduled e p w))
     = mark_loop e month_day 0 (load_scheduled_posts w)).
Proof.
  rewrite post_scheduled_unfold.
  destruct (is_empty (get_text p)); [auto|].
  destruct (login_ok e); cbn [negb]; [|auto].
  destruct (send_ok e); cbn [negb]; [|auto].
  split; [reflexivity|]. split; [reflexivity|].
  right; eexists; reflexivity.
Qed.

(** The files after the second branch: as they were, but for the history
    file after a send. *)
Lemma post_regular_files (e : env) (w : world) :
  scheduled_posts_file (snd (post_regular e w)) = scheduled_posts_file w /\
  regular_posts_file (snd (post_regular e w)) = regular_posts_file w /\
  (state_file (snd (post_regular e w)) = state_file w \/
   fst (post_regular e w) = true /\
   exists recent_posts,
     state_file (snd (post_regular e w))
     = Holds (Some (slice_last 220 recent_posts))).
Proof.
  rewrite post_regular_unfold.
  destruct (is_empty (load_regular_posts w)); [auto|].
  cbv zeta; destruct (login_ok e); cbn [negb]; [|auto].
  destruct (send_ok e); cbn [negb]; [|auto].
  split; [reflexivity|]. split; [reflexivity|].
  right; split; [reflexivity|]. eexists; reflexivity.
Qed.

(** X5. A run leaves the history file as it was or, when it returns [True]
    after a regular send, holding at most 220 entries: a history within the
    cap stays within it, and one beyond it never grows. *)
Theorem post_next_keeps_history_cap (e : env) (w : world) :
  let w' := snd (post_next e w) in
  (state_file w' = state_file w \/
   fst (post_next e w) = true /\ length (load_state w') <= 220) /\
  length (load_state w') <= Nat.max 220 (length (load_state w)) /\
  (length (load_state w) <= 220 -> length (load_state w') <= 220).
Proof.
  cbv zeta.
  assert (H : state_file (snd (post_next e w)) = state_file w \/
              fst (post_next e w) = true /\
              length (load_state (snd (post_next e w))) <= 220).
  { destruct (post_next_branch e w) as [[p ->] | ->].
    - left. destruct (post_scheduled_collection e p
                        (reset_annual_posts_if_new_year e w)) as (_ & -> & _).
      apply reset_state_file.
    - destruct (post_regular_files e (reset_annual_posts_if_new_year e w))
        as (_ & _ & [-> | (Hok & l & Hl)]).
      + left; apply reset_state_file.
      + right; split; [exact Hok|].
        unfold load_state; rewrite Hl, slice_last_length; lia. }
  split; [exact H|].
  assert (Hmax : length (load_state (snd (post_next e w)))
                 <= Nat.max 220 (length (load_state w))).
  { destruct H as [E | (_ & Hcap)]; [|lia].
    unfold load_state; rewrite E; lia. }
  split; [exact Hmax | lia].
Qed.

(** A history of two entries stays within the cap. *)
Lemma abc_history_within_cap :
  length (load_state (snd (post_next spring_online abc_disk))) <= 220.
Proof.
  destruct (post_next_keeps_history_cap spring_online abc_disk)
    as (_ & _ & Hcap).
  apply Hcap; vm_compute; lia.
Defined.





(** ** Dates and keys *)

Lemma pad2_inj (n m : N) :
  (n < 100)%N -> (m < 100)%N -> pad2 n = pad2 m -> n = m.
Proof.
  intros Hn Hm E.
  assert (E1 : digit (n / 10) = digit (m / 10)).
  { apply (f_equal (fun l => nth 0 l 0%N)) in E; exact E. }
  assert (E2 : digit n = digit m).
  { apply (f_equal (fun l => nth 1 l 0%N)) in E; exact E. }
  unfold digit in E1, E2.
  pose proof (N.div_mod' n 10) as Dn. pose proof (N.div_mod' m 10) as Dm.
  assert (Qn : (n / 10 < 10)%N) by (apply N.Div0.div_lt_upper_bound; lia).
  assert (Qm : (m / 10 < 10)%N) by (apply N.Div0.div_lt_upper_bound; lia).
  rewrite (N.mod_small (n / 10) 10), (N.mod_small (m / 10) 10) in E1 by assumption.
  apply N.add_cancel_l in E1, E2.
  rewrite Dn, Dm, E1, E2; reflexivity.
Qed.

Lemma strftime_md_inj (t t' : datetime) :
  calendar t -> calendar t' ->
  strftime_md t' = strftime_md t -> month t' = month t /\ day t' = day t.
Proof.
  intros [Hm Hd] [Hm' Hd'] E.
  assert (E1 : pad2 (month t') = pad2 (month t)).
  { apply (f_equal (firstn 2)) in E; exact E. }
  assert (E2 : pad2 (day t') = pad2 (day t)).
  { apply (f_equal (skipn 3)) in E; exact E. }
  split; apply pad2_inj; try lia; assumption.
Qed.

Lemma length_strftime_md (t : datetime) : length (strftime_md t) = 5.
Proof. reflexivity. Qed.

(** X8. An entry can match only with a date of exactly ten characters,
    and it matches a day exactly when its date, after the first five
    characters, is the two-digit month, a hyphen and the two-digit day.  An
    entry that matches on one day therefore matches on the days with the
    same month and day, in any year, and on no other day. *)
Theorem entry_matches_exactly_on_its_day (t : datetime) (p : post) :
  (matches (strftime_md t) p <->
     exists prefix,
       length prefix = 5 /\
       get_date p = prefix ++ pad2 (month t) ++ u "-" ++ pad2 (day t)) /\
  (matches (strftime_md t) p -> length (get_date p) = 10) /\
  (calendar t -> matches (strftime_md t) p ->
     forall t', calendar t' ->
       (matches (strftime_md t') p <->
          month t' = month t /\ day t' = day t)).
Proof.
  assert (Hlen : matches (strftime_md t) p -> length (get_date p) = 10).
  { intros [Hge Hkey]. apply (f_equal (@length N)) in Hkey.
    unfold slice_from in Hkey; rewrite length_skipn, length_strftime_md in Hkey.
    lia. }
  split; [|split; [exact Hlen|]].
  - split.
    + intros Hm; pose proof (Hlen Hm) as L; destruct Hm as [_ Hkey].
      exists (firstn 5 (get_date p)); split.
      * rewrite length_firstn; lia.
      * unfold slice_from in Hkey; fold (strftime_md t); rewrite <- Hkey.
        symmetry; apply firstn_skipn.
    + intros (prefix & L & E); unfold matches; rewrite E; split.
      * rewrite length_app, L; simpl; lia.
      * unfold slice_from. rewrite skipn_app, L, Nat.sub_diag.
        rewrite skipn_all2 by lia; reflexivity.
  - intros Ht [_ Hkey] t' Ht'; split.
    + intros [_ Hkey']. apply strftime_md_inj; try assumption. congruence.
    + intros [Em Ed]. unfold matches, strftime_md in *.
      rewrite Em, Ed; split; [|exact Hkey].
      apply (f_equal (@length N)) in Hkey.
      unfold slice_from in Hkey; rewrite length_skipn in Hkey.
      simpl in Hkey; lia.
Qed.

(** The Christmas entry of 2023 matches on Christmas day of 2031. *)
Lemma xmas_2023_matches_in_2031 :
  matches (strftime_md (morning 2031 12 25)) xmas_2023.
Proof.
  destruct (entry_matches_exactly_on_its_day (morning 2025 12 25) xmas_2023)
    as (_ & _ & Hyears).
  apply Hyears.
  - unfold calendar; simpl; lia.
  - split; [simpl; lia | reflexivity].
  - unfold calendar; simpl; lia.
  - split; reflexivity.
Defined.

(** ** The shape of a regular post *)

Lemma lstrip_split (s : str) :
  exists pre, s = pre ++ lstrip s /\ forallb isspace pre = true.
Proof.
  induction s as [|c s (pre & E & Hpre)]; simpl.
  - exists []; auto.
  - destruct (isspace c) eqn:C.
    + exists (c :: pre); simpl; rewrite C, Hpre, <- E; auto.
    + exists []; auto.
Qed.

(** The stripped string sits inside the string it comes from. *)
Lemma strip_infix (s : str) : exists pre suf, s = pre ++ strip s ++ suf.
Proof.
  unfold strip, rstrip.
  destruct (lstrip_split s) as (pre & E & _).
  destruct (lstrip_split (rev (lstrip s))) as (pre' & E' & _).
  exists pre, (rev pre').
  rewrite <- rev_app_distr, <- E', rev_involutive; exact E.
Qed.

Lemma strip_first (s : str) (c : N) (rest : str) :
  strip s = c :: rest -> isspace c = false.
Proof.
  unfold strip, rstrip; intros E.
  destruct (lstrip_split (rev (lstrip s))) as (pre' & E' & _).
  apply (f_equal (@rev N)) in E; rewrite rev_involutive in E.
  rewrite E in E'. apply (f_equal (@rev N)) in E'.
  rewrite rev_involutive, rev_app_distr, rev_involutive in E'.
  simpl in E'. exact (lstrip_head _ E').
Qed.

Lemma strip_last (s : str) (init : str) (c : N) :
  strip s = init ++ [c] -> isspace c = false.
Proof.
  unfold strip, rstrip; intros E.
  apply (f_equal (@rev N)) in E.
  rewrite rev_involutive, rev_app_distr in E; simpl in E.
  exact (lstrip_head _ E).
Qed.

Lemma universal_newlines_no_cr (s : str) : ~ In 13%N (universal_newlines s).
Proof.
  assert (H : forall n s, length s <= n -> ~ In 13%N (universal_newlines s)).
  { clear s; induction n as [|n IH]; intros [|c rest] L; simpl in *;
      try (intros []); try lia.
    destruct (c =? 13)%N eqn:C.
    - intros [H | H]; [discriminate|].
      destruct rest as [|d rest']; [destruct H|].
      destruct (d =? 10)%N; revert H; apply IH; simpl in *; lia.
    - intros [H | H]; [subst c; discriminate|].
      revert H; apply IH; lia. }
  exact (H (length s) s (le_n _)).
Qed.

(** X9. Every post of the regular pool is one trimmed line: it is not
    empty, it begins and ends with a character that is not whitespace, and
    it contains neither a line feed nor a carriage return. *)
Theorem regular_posts_are_trimmed_lines (w : world) :
  Forall (fun body =>
            body <> [] /\
            (forall c rest, body = c :: rest -> isspace c = false) /\
            (forall init c, body = init ++ [c] -> isspace c = false) /\
            ~ In 10%N body /\ ~ In 13%N body)
         (load_regular_posts w).
Proof.
  unfold load_regular_posts.
  destruct (regular_posts_file w) as [| raw | content]; try constructor.
  apply Forall_forall; intros body Hin.
  apply in_map_iff in Hin; destruct Hin as (line & <- & Hline).
  apply filter_In in Hline; destruct Hline as (Hline & Hkept).
  apply negb_true_iff, is_empty_cons in Hkept.
  split; [exact Hkept|].
  split; [intros c rest; apply strip_first|].
  split; [intros init c; apply strip_last|].
  destruct (strip_infix line) as (pre & suf & Eline).
  split.
  - intros H10.
    destruct (exists_last Hkept) as (init & c & Ebody).
    pose proof (@strip_last line init c Ebody) as Hc.
    rewrite Ebody in H10; apply in_app_or in H10.
    destruct H10 as [H10 | [H10 | []]];
      [|subst c; vm_compute in Hc; discriminate Hc].
    assert (Hshape : Forall (fun l => l <> [] /\ ~ In 10%N (removelast l))
                       (file_lines content)).
    { unfold file_lines; apply lines_from_shape; intros []. }
    rewrite Forall_forall in Hshape.
    destruct (Hshape line Hline) as (_ & Hno); apply Hno.
    rewrite Eline, Ebody, <- !app_assoc.
    rewrite app_assoc, removelast_app by discriminate.
    apply in_or_app; left; apply in_or_app; right; exact H10.
  - intros H13. apply (universal_newlines_no_cr content).
    unfold file_lines in Hline.
    rewrite <- (app_nil_l (universal_newlines content)).
    rewrite <- concat_lines_from. apply in_concat.
    exists line; split; [exact Hline|].
    rewrite Eline; apply in_or_app; right; apply in_or_app; left; exact H13.
Qed.

(** ** From one run to the next *)

Lemma reset_post_twice (q : post) : reset_post (reset_post q) = reset_post q.
Proof. apply reset_post_unposted, get_posted_reset_post. Qed.

(** X10. A scheduled post whose dispatch failed is found again by the next
    run of the same day: the failed run has left every flag as the reset
    left it, so the same entry is the first unposted match. *)
Theorem failed_scheduled_dispatch_is_retried
    (e1 e2 : env) (w : world) (p : post) :
  let w0 := reset_annual_posts_if_new_year e1 w in
  let w1 := snd (post_next e1 w) in
  find_scheduled_post_for_today e1 w0 = Some p ->
  login_ok e1 = false \/ send_ok e1 = false ->
  strftime_md (now_find e2) = strftime_md (now_find e1) ->
  (new_year e2 -> new_year e1) ->
  fst (post_next e1 w) = false /\
  find_scheduled_post_for_today e2 (reset_annual_posts_if_new_year e2 w1)
    = Some p /\
  post_next e2 w1
  = post_scheduled e2 p (reset_annual_posts_if_new_year e2 w1).
Proof.
  cbv zeta; intros F Hnet Hkey Hday.
  rewrite (post_next_found _ _ F).
  pose proof (@post_scheduled_needs_network e1 p
                (reset_annual_posts_if_new_year e1 w) Hnet) as Hfail.
  destruct (@post_scheduled_failure e1 p
              (reset_annual_posts_if_new_year e1 w) Hfail)
    as ((Hs & _ & _) & _).
  set (w0 := reset_annual_posts_if_new_year e1 w) in *.
  set (w1 := snd (post_scheduled e1 p w0)) in *.
  assert (Hload : load_scheduled_posts w1 = load_scheduled_posts w0).
  { unfold load_scheduled_posts; rewrite Hs; reflexivity. }
  assert (Hload2 : load_scheduled_posts (reset_annual_posts_if_new_year e2 w1)
                   = load_scheduled_posts w0).
  { destruct (negb (month (now_reset e2) =? 1)%N
              || negb (day (now_reset e2) =? 1)%N) eqn:D.
    - assert (Hoff : ~ new_year e2).
      { intros NY; apply new_year_dec in NY; congruence. }
      rewrite reset_not_new_year by exact Hoff; exact Hload.
    - apply new_year_dec in D.
      rewrite reset_load_scheduled, Hload by exact D.
      unfold w0; rewrite reset_load_scheduled by exact (Hday D).
      rewrite map_map; apply map_ext; intros q; apply reset_post_twice. }
  assert (F2 : find_scheduled_post_for_today e2
                 (reset_annual_posts_if_new_year e2 w1) = Some p).
  { unfold find_scheduled_post_for_today in *.
    rewrite Hload2, Hkey; exact F. }
  split; [exact Hfail|]. split; [exact F2|].
  apply post_next_found; exact F2.
Qed.

(** Christmas morning with the login refused: the next run of the day
    finds the same entry. *)
Lemma xmas_offline_is_retried :
  find_scheduled_post_for_today xmas_run
    (reset_annual_posts_if_new_year xmas_run
       (snd (post_next xmas_offline xmas_disk)))
  = Some xmas_2023.
Proof.
  destruct (@failed_scheduled_dispatch_is_retried xmas_offline xmas_run
              xmas_disk xmas_2023) as (_ & Hfound & _).
  - reflexivity.
  - left; reflexivity.
  - reflexivity.
  - unfold new_year; simpl; intros [H _]; discriminate.
  - exact Hfound.
Defined.

Lemma slice_last_snoc {A} (n : nat) (l : list A) (x : A) :
  0 < n -> slice_last n (l ++ [x]) = skipn (S (length l) - n) l ++ [x].
Proof.
  intros Hn; unfold slice_last.
  rewrite length_app, Nat.add_1_r, skipn_app.
  replace (S (length l) - n - length l) with 0 by lia; reflexivity.
Qed.

(** X11. After a regular send the text sent is the last entry of the
    saved history; so as long as some post of the pool is not in that
    history, the next regular run draws a post that is not in it, hence a
    different one. *)
Theorem consecutive_regular_sends_differ (e1 e2 : env) (w : world) :
  let w0 := reset_annual_posts_if_new_year e1 w in
  let w1 := snd (post_next e1 w) in
  let pool := load_regular_posts w in
  let first :=
    choice (draw e1) (fst (available_and_recent pool (load_state w))) in
  let second :=
    choice (draw e2) (fst (available_and_recent pool (load_state w1))) in
  find_scheduled_post_for_today e1 w0 = None ->
  pool <> [] -> login_ok e1 = true -> send_ok e1 = true ->
  find_scheduled_post_for_today e2 (reset_annual_posts_if_new_year e2 w1)
    = None ->
  (exists x, In x pool /\ ~ In x (load_state w1)) ->
  trace w1 = trace w0 ++ [Login; SendPost first; WriteState] /\
  (exists older, load_state w1 = older ++ [first]) /\
  ~ In second (load_state w1) /\
  second <> first /\
  (login_ok e2 = true -> send_ok e2 = true ->
     fst (post_next e2 w1) = true /\
     trace (snd (post_next e2 w1))
     = trace (reset_annual_posts_if_new_year e2 w1)
       ++ [Login; SendPost second; WriteState]).
Proof.
  cbv zeta; intros F1 Hpool Hl1 Hs1.
  rewrite (post_next_not_found _ _ F1).
  rewrite post_regular_success by (rewrite ?load_regular_reset; assumption).
  cbv zeta; rewrite load_regular_reset, load_state_reset; cbn [snd].
  set (w0 := reset_annual_posts_if_new_year e1 w).
  set (ar := available_and_recent (load_regular_posts w) (load_state w)).
  set (first := choice (draw e1) (fst ar)).
  set (w1 := save_state (snd ar ++ [first]) _).
  intros F2 Hfresh.
  assert (Hhist : load_state w1
                  = skipn (S (length (snd ar)) - 220) (snd ar) ++ [first]).
  { unfold w1; rewrite load_state_save_state; apply slice_last_snoc; lia. }
  assert (Hpool1 : load_regular_posts (reset_annual_posts_if_new_year e2 w1)
                   = load_regular_posts w).
  { rewrite load_regular_reset.
    assert (E : regular_posts_file w1 = regular_posts_file w).
    { unfold w1; cbn [save_state write_state log regular_posts_file].
      apply reset_regular_file. }
    unfold load_regular_posts; rewrite E; reflexivity. }
  destruct (available_fresh _ _ Hfresh) as (Hne & Hav).
  pose proof (choice_In (draw e2) Hne) as Hin.
  rewrite Hav; cbn [fst snd].
  apply filter_In in Hin; destruct Hin as (_ & Hnew).
  apply negb_true_iff, contains_false in Hnew.
  split.
  { unfold w1; cbn [save_state write_state trace log].
    rewrite <- !app_assoc; reflexivity. }
  split; [eexists; exact Hhist|].
  split; [exact Hnew|]. split.
  { intros E; apply Hnew; rewrite E, Hhist.
    apply in_or_app; right; left; reflexivity. }
  intros Hl2 Hs2. rewrite (post_next_not_found _ _ F2).
  rewrite post_regular_success by (rewrite ?Hpool1; assumption).
  cbv zeta; rewrite Hpool1, load_state_reset, Hav; cbn [fst snd].
  split; [reflexivity|].
  cbn [save_state write_state trace log]; rewrite <- !app_assoc; reflexivity.
Qed.

(** With "a" in the history the first run sends "b" and the second "c". *)
Lemma a_disk_sends_b_then_c :
  trace (snd (post_next spring_online
                (snd (post_next spring_online a_disk))))
  = [Login; SendPost (u "b"); WriteState;
     Login; SendPost (u "c"); WriteState].
Proof.
  destruct (@consecutive_regular_sends_differ spring_online spring_online a_disk)
    as (Hfirst & _ & _ & _ & Hsecond).
  - reflexivity.
  - vm_compute; discriminate.
  - reflexivity.
  - reflexivity.
  - reflexivity.
  - exists (u "c"); split; [vm_compute; auto|].
    vm_compute; intros [H | [H | []]]; discriminate.
  - destruct (Hsecond eq_refl eq_refl) as (_ & Htrace).
    rewrite Htrace; reflexivity.
Defined.

(** ** The edges of the recency window *)

Lemma chosen_in_pool (r : nat) (pool history : list str) :
  pool <> [] -> In (choice r (fst (available_and_recent pool history))) pool.
Proof.
  intros Hpool; unfold available_and_recent.
  destruct (is_empty (filter _ pool)) eqn:F; cbn [fst].
  - apply choice_In; exact Hpool.
  - apply is_empty_cons in F. apply (choice_In r) in F.
    apply filter_In in F; apply F.
Qed.

Lemma available_no_history (pool : list str) :
  available_and_recent pool [] = (pool, []).
Proof.
  unfold available_and_recent.
  replace (filter (fun p => negb (contains [] p)) pool) with pool.
  - destruct pool; reflexivity.
  - induction pool as [|x pool IH]; [reflexivity|].
    cbn [filter contains existsb negb]; f_equal; exact IH.
Qed.

(** X12. The window does not reach across an exhaustion: when the post
    just sent completes the pool in the saved history, the next regular run
    draws from the whole pool again, the post just sent included, and a run
    that draws it sends it a second time and restarts the history with
    it. *)
Theorem exhausted_pool_can_repeat_last_post (e1 e2 : env) (w : world) :
  let w0 := reset_annual_posts_if_new_year e1 w in
  let w1 := snd (post_next e1 w) in
  let pool := load_regular_posts w in
  let first :=
    choice (draw e1) (fst (available_and_recent pool (load_state w))) in
  find_scheduled_post_for_today e1 w0 = None ->
  pool <> [] -> login_ok e1 = true -> send_ok e1 = true ->
  (forall x, In x pool -> In x (load_state w1)) ->
  find_scheduled_post_for_today e2 (reset_annual_posts_if_new_year e2 w1)
    = None ->
  login_ok e2 = true -> send_ok e2 = true ->
  trace w1 = trace w0 ++ [Login; SendPost first; WriteState] /\
  available_and_recent pool (load_state w1) = (pool, []) /\
  (exists r, choice r pool = first) /\
  (choice (draw e2) pool = first ->
     trace (snd (post_next e2 w1))
     = trace (reset_annual_posts_if_new_year e2 w1)
       ++ [Login; SendPost first; WriteState] /\
     state_file (snd (post_next e2 w1)) = Holds (Some [first])).
Proof.
  cbv zeta; intros F1 Hpool Hl1 Hs1.
  rewrite (post_next_not_found _ _ F1).
  rewrite post_regular_success by (rewrite ?load_regular_reset; assumption).
  cbv zeta; rewrite load_regular_reset, load_state_reset; cbn [snd].
  set (w0 := reset_annual_posts_if_new_year e1 w).
  set (ar := available_and_recent (load_regular_posts w) (load_state w)).
  set (first := choice (draw e1) (fst ar)).
  set (w1 := save_state (snd ar ++ [first]) _).
  intros Hall F2 Hl2 Hs2.
  assert (Hpool1 : load_regular_posts (reset_annual_posts_if_new_year e2 w1)
                   = load_regular_posts w).
  { rewrite load_regular_reset.
    assert (E : regular_posts_file w1 = regular_posts_file w).
    { unfold w1; cbn [save_state write_state log regular_posts_file].
      apply reset_regular_file. }
    unfold load_regular_posts; rewrite E; reflexivity. }
  pose proof (available_exhausted _ _ Hall) as Hav.
  split.
  { unfold w1; cbn [save_state write_state trace log].
    rewrite <- !app_assoc; reflexivity. }
  split; [exact Hav|]. split.
  { apply choice_onto. unfold first, ar; apply chosen_in_pool; exact Hpool. }
  intros Hdraw. rewrite (post_next_not_found _ _ F2).
  rewrite post_regular_success by (rewrite ?Hpool1; assumption).
  cbv zeta; rewrite Hpool1, load_state_reset, Hav; cbn [fst snd].
  rewrite Hdraw; split; [|reflexivity].
  cbn [save_state write_state trace log]; rewrite <- !app_assoc; reflexivity.
Qed.

(** Two posts, "a" in the history: the first run sends "b", which exhausts
    the pool, and a second run that draws the second post sends "b"
    again. *)
Lemma ab_one_disk_sends_b_twice :
  trace (snd (post_next spring_draw_1
                (snd (post_next spring_online ab_one_disk))))
  = [Login; SendPost (u "b"); WriteState;
     Login; SendPost (u "b"); WriteState].
Proof.
  destruct (@exhausted_pool_can_repeat_last_post spring_online spring_draw_1
              ab_one_disk) as (_ & _ & _ & Hagain).
  - reflexivity.
  - vm_compute; discriminate.
  - reflexivity.
  - reflexivity.
  - intros x Hx; vm_compute in Hx; vm_compute; tauto.
  - reflexivity.
  - reflexivity.
  - reflexivity.
  - destruct (Hagain eq_refl) as (Htrace & _).
    rewrite Htrace; reflexivity.
Defined.

(** X13. A history file that is absent, cannot be loaded, or has no
    [recent_posts] key counts as an empty history: the post is drawn from
    the whole pool, and a successful send leaves a history file that holds
    the post sent and nothing else. *)
Theorem unreadable_history_starts_afresh (e : env) (w : world) :
  let w0 := reset_annual_posts_if_new_year e w in
  let pool := load_regular_posts w in
  let chosen := choice (draw e) pool in
  (forall recent_posts, state_file w <> Holds (Some recent_posts)) ->
  find_scheduled_post_for_today e w0 = None ->
  pool <> [] -> login_ok e = true -> send_ok e = true ->
  load_state w = [] /\
  exists w',
    post_next e w = (true, w') /\
    trace w' = trace w0 ++ [Login; SendPost chosen; WriteState] /\
    state_file w' = Holds (Some [chosen]) /\
    load_state w' = [chosen].
Proof.
  cbv zeta; intros Hnone F Hpool Hl Hs.
  assert (Hempty : load_state w = []).
  { unfold load_state.
    destruct (state_file w) as [| raw | [recent|]] eqn:E; try reflexivity.
    exfalso; exact (Hnone recent eq_refl). }
  split; [exact Hempty|].
  rewrite (post_next_not_found _ _ F).
  rewrite post_regular_success by (rewrite ?load_regular_reset; assumption).
  cbv zeta; rewrite load_regular_reset, load_state_reset, Hempty.
  rewrite available_no_history; cbn [fst snd app].
  eexists; split; [reflexivity|]. split; [|split; reflexivity].
  cbn [save_state write_state trace log]; rewrite <- !app_assoc; reflexivity.
Qed.

(** A history file cut short: the first post of the pool is sent and
    becomes the whole history. *)
Lemma cut_state_starts_afresh :
  exists w',
    post_next spring_online cut_state_disk = (true, w') /\
    state_file w' = Holds (Some [u "a"]).
Proof.
  destruct (@unreadable_history_starts_afresh spring_online cut_state_disk)
    as (_ & w' & Hrun & _ & Hfile & _).
  - intros recent_posts; discriminate.
  - reflexivity.
  - vm_compute; discriminate.
  - reflexivity.
  - reflexivity.
  - exists w'; split; [exact Hrun | exact Hfile].
Defined.
